(** * basics/maxdecltype.hpp: the two-type [max] template

    <<
    template<typename T1, typename T2>
    auto max (T1 a, T2 b) -> decltype(b < a ? a : b)
    {
      // if b < a then yield a else b
      return b < a ? a : b;
    }
    >>

    The header is one function template.  What a call does is decided in
    two stages, and the development follows them:

    - at compile time the template is instantiated for the argument types
      [T1] and [T2]: the comparison [b < a] must be well-formed, the
      conditional expression [b < a ? a : b] must have a type, and the
      trailing return type is [decltype] of that conditional expression;
    - at run time the two parameters are objects with automatic storage in
      the frame of the call, copy-initialised from the arguments; the
      [return] statement evaluates the conditional and initialises the
      result, an object or a reference according to the return type; the
      parameters are destroyed when the function returns.

    Types range over the object types that template argument deduction
    yields for a by-value parameter; the fragment covered is [int],
    [unsigned int], [long], [unsigned long] (LP64), [double] (IEEE 754
    binary64) and scoped enumerations with underlying type [int].  For
    these the operations that the template uses are built in.  A class as
    argument type brings its own copy constructor, [operator<] and
    destructor; the instantiation for two arguments of one class is
    modelled apart, over the operations of the class. *)

From Stdlib Require Import ZArith Floats.
From stdpp Require Import base option list.

Set Warnings "-inexact-float".
Open Scope Z_scope.

(** ** Types *)

Module CType.

(** The standard integer types of rank at least [int]. *)
Inductive ikind : Set := IInt | IUInt | ILong | IULong.

Inductive ctype : Set :=
  | Tinteger (k : ikind)
  | Tdouble
  | Tenum (tag : nat).

#[global] Instance ikind_eq_dec : EqDecision ikind.
Proof. solve_decision. Defined.

#[global] Instance ctype_eq_dec : EqDecision ctype.
Proof. solve_decision. Defined.

Definition is_signed (k : ikind) : bool :=
  match k with IInt | ILong => true | IUInt | IULong => false end.

(** Width in bits (LP64). *)
Definition bits (k : ikind) : Z :=
  match k with IInt | IUInt => 32 | ILong | IULong => 64 end.

(** Integer conversion rank. *)
Definition rank (k : ikind) : nat :=
  match k with IInt | IUInt => 1%nat | ILong | IULong => 2%nat end.

Definition to_unsigned (k : ikind) : ikind :=
  match k with IInt | IUInt => IUInt | ILong | IULong => IULong end.

Definition min_value (k : ikind) : Z :=
  if is_signed k then - 2 ^ (bits k - 1) else 0.

Definition max_value (k : ikind) : Z :=
  if is_signed k then 2 ^ (bits k - 1) - 1 else 2 ^ bits k - 1.

Definition in_range (k : ikind) (n : Z) : bool :=
  (min_value k <=? n) && (n <=? max_value k).

(** Conversion of an integer value to the integer type [k]: the unique
    value of [k] congruent to [n] modulo [2 ^ bits k]. *)
Definition wrap (k : ikind) (n : Z) : Z :=
  if is_signed k
  then (n + 2 ^ (bits k - 1)) mod 2 ^ bits k - 2 ^ (bits k - 1)
  else n mod 2 ^ bits k.

(** Value categories of the expressions that occur in the function. *)
Inductive valcat : Set := Lvalue | Prvalue.

(** A function return type: an object type [T] or the reference type [T&]. *)
Inductive rtype : Set :=
  | Rval (T : ctype)
  | Rref (T : ctype).

(** The usual arithmetic conversions on two integer types, none of which
    needs promotion: equal types stay; with equal signedness the higher
    rank wins; otherwise the unsigned type wins if its rank is not lower,
    else the signed type if it can represent every value of the unsigned
    one, else the unsigned type corresponding to the signed one. *)
Definition common_ikind (k1 k2 : ikind) : ikind :=
  if decide (k1 = k2) then k1
  else if Bool.eqb (is_signed k1) (is_signed k2)
       then (if (rank k1 <? rank k2)%nat then k2 else k1)
       else
         let s := if is_signed k1 then k1 else k2 in
         let u := if is_signed k1 then k2 else k1 in
         if (rank s <=? rank u)%nat then u
         else if bits u <? bits s then s
              else to_unsigned s.

(** The usual arithmetic conversions; scoped enumerations take no part. *)
Definition arith_common (T1 T2 : ctype) : option ctype :=
  match T1, T2 with
  | Tinteger k1, Tinteger k2 => Some (Tinteger (common_ikind k1 k2))
  | Tdouble, (Tinteger _ | Tdouble) => Some Tdouble
  | Tinteger _, Tdouble => Some Tdouble
  | _, _ => None
  end.

(** The type in which the operands of the built-in [x < y] are compared,
    [x] of type [Tx] and [y] of type [Ty]: arithmetic operands undergo the
    usual arithmetic conversions, two operands of one scoped enumeration
    are compared as they are, and nothing else is well-formed. *)
Definition rel_type (Tx Ty : ctype) : option ctype :=
  match Tx, Ty with
  | Tenum t1, Tenum t2 => if decide (t1 = t2) then Some (Tenum t1) else None
  | _, _ => arith_common Tx Ty
  end.

(** Type and value category of [c ? a : b] for the lvalues [a] of type
    [T1] and [b] of type [T2]: two lvalues of the same type give an lvalue
    of that type; otherwise both operands are converted to prvalues and
    brought to a common type by the usual arithmetic conversions. *)
Definition cond_type (T1 T2 : ctype) : option (ctype * valcat) :=
  if decide (T1 = T2) then Some (T1, Lvalue)
  else T ← arith_common T1 T2; Some (T, Prvalue).

(** [decltype(e)] for an expression [e] that is not a plain name: [T&] for
    an lvalue of type [T], [T] for a prvalue. *)
Definition decltype (e : ctype * valcat) : rtype :=
  match e with
  | (T, Lvalue) => Rref T
  | (T, Prvalue) => Rval T
  end.

End CType.
Export CType.

Abbreviation Tint := (Tinteger IInt).
Abbreviation Tuint := (Tinteger IUInt).
Abbreviation Tlong := (Tinteger ILong).
Abbreviation Tulong := (Tinteger IULong).

(** ** Values *)

Module Val.

Inductive value : Set :=
  | Vinteger (k : ikind) (n : Z)
  | Vdouble (f : float)
  | Venum (tag : nat) (n : Z).

Definition type_of (v : value) : ctype :=
  match v with
  | Vinteger k _ => Tinteger k
  | Vdouble _ => Tdouble
  | Venum t _ => Tenum t
  end.

(** [v] is a value of the type [T]. *)
Definition has_type (v : value) (T : ctype) : bool :=
  match v, T with
  | Vinteger k n, Tinteger k' => bool_decide (k = k') && in_range k n
  | Vdouble _, Tdouble => true
  | Venum t n, Tenum t' => bool_decide (t = t') && in_range IInt n
  | _, _ => false
  end.

(** Integer to [double]: the nearest binary64 value, ties to even. *)
Definition Z2double (n : Z) : float :=
  SF2Prim (binary_normalize prec emax n 0 false).

(** The implicit conversions that the function applies to an operand: an
    integer to an integer type or to [double], and the identity on
    [double] and on a scoped enumeration. *)
Definition convert (T : ctype) (v : value) : option value :=
  match T, v with
  | Tinteger k, Vinteger _ n => Some (Vinteger k (wrap k n))
  | Tdouble, Vinteger _ n => Some (Vdouble (Z2double n))
  | Tdouble, Vdouble f => Some (Vdouble f)
  | Tenum t, Venum t' n => if decide (t = t') then Some (Venum t n) else None
  | _, _ => None
  end.

(** The built-in [x < y], both operands first converted to the type [C]
    in which they are compared. *)
Definition less (C : ctype) (x y : value) : option bool :=
  x' ← convert C x;
  y' ← convert C y;
  match x', y' with
  | Vinteger _ m, Vinteger _ n => Some (m <? n)
  | Vdouble f, Vdouble g => Some (PrimFloat.ltb f g)
  | Venum _ m, Venum _ n => Some (m <? n)
  | _, _ => None
  end.

End Val.
Export Val.

(** ** Automatic storage *)

Module Mem.

(** The objects with automatic storage that are alive, in the order of
    their creation; an object is designated by its position.  Creating an
    object pushes it, and leaving a scope pops the objects created in it,
    so a position at or beyond the length of the store designates no live
    object. *)
Definition loc := nat.
Definition store := list value.

(** Computations on the store that may have undefined behaviour ([None]). *)
Definition M (A : Type) : Type := store -> option (A * store).

Definition ret {A} (x : A) : M A := fun st => Some (x, st).

Definition bind {A B} (m : M A) (k : A -> M B) : M B :=
  fun st => match m st with
            | Some (x, st') => k x st'
            | None => None
            end.

Definition lift {A} (o : option A) : M A :=
  fun st => match o with Some x => Some (x, st) | None => None end.

(** Reading an object; undefined outside its lifetime. *)
Definition load (l : loc) : M value := fun st => lift (st !! l) st.

(** Creating an object initialised with [v]. *)
Definition alloc (v : value) : M loc := fun st => Some (length st, st ++ [v]).

(** Running [m] in a scope of its own: the objects it created are
    destroyed when it ends. *)
Definition scoped {A} (m : M A) : M A :=
  fun st => match m st with
            | Some (x, st') => Some (x, take (length st) st')
            | None => None
            end.

End Mem.
Export Mem.

Declare Scope cxx_scope.
Delimit Scope cxx_scope with cxx.
Notation "'let*' x ':=' m 'in' k" := (bind m (fun x => k))
  (at level 10, x name, m at level 100, k at level 200) : cxx_scope.
Open Scope cxx_scope.

(** ** The function template *)

Module MaxDecltype.

(** What a call expression of a function yields: a prvalue of the return
    type, or for a reference return type an lvalue designating an object. *)
Inductive result : Set :=
  | RVal (v : value)
  | RRef (l : loc).

(** An instantiation [max<T1, T2>]: the parameter types, the type in which
    [b < a] compares its operands, and the return type. *)
Record max_inst : Set := MaxInst {
  inst_T1 : ctype;
  inst_T2 : ctype;
  inst_cmp : ctype;
  inst_ret : rtype
}.

(** Instantiating the declaration
    [auto max (T1 a, T2 b) -> decltype(b < a ? a : b)]:
    [None] when [b < a] or the conditional is ill-formed, which rejects
    the call at compile time. *)
Definition instantiate (T1 T2 : ctype) : option max_inst :=
  C ← rel_type T2 T1;
  e ← cond_type T1 T2;
  Some (MaxInst T1 T2 C (decltype e)).

(** A by-value parameter of type [T]: an object of the callee's frame,
    copy-initialised from the argument.  The template arguments are
    deduced from the arguments, so an argument that is not a value of the
    parameter type stands for no call that a program can make. *)
Definition param (T : ctype) (v : value) : M loc :=
  if has_type v T then alloc v else lift None.

(** [return c ? a : b;] once the condition has selected the parameter at
    [l].  When the conditional is an lvalue the return type is a reference
    and the result is bound to the selected parameter.  When it is a
    prvalue of the common type the selected parameter is read, converted
    to that type, and the value initialises the result. *)
Definition return_selected (R : rtype) (l : loc) : M result :=
  match R with
  | Rref _ => ret (RRef l)
  | Rval T =>
      let* v := load l in
      let* w := lift (convert T v) in
      ret (RVal w)
  end.

(** The body, [return b < a ? a : b;], with [a] at [la] and [b] at [lb]. *)
Definition max_body (inst : max_inst) (la lb : loc) : M result :=
  let* vb := load lb in
  let* va := load la in
  let* c := lift (less (inst_cmp inst) vb va) in
  return_selected (inst_ret inst) (if c then la else lb).

(** A call of the instantiation [inst] with the argument values [a] and [b]:
    the parameters are created, the body runs, and the parameters are
    destroyed when the function returns.  (That is the rule of C++11 and
    C++14.  Since C++17 an implementation may instead end the lifetime of
    a parameter at the end of the full-expression that contains the call;
    the model follows the first rule.) *)
Definition max (inst : max_inst) (a b : value) : M result :=
  scoped (let* la := param (inst_T1 inst) a in
          let* lb := param (inst_T2 inst) b in
          max_body inst la lb).

(** The caller reading the value of the call expression: the result
    itself, or the object that a returned reference designates. *)
Definition use (r : result) : M value :=
  match r with
  | RVal v => ret v
  | RRef l => load l
  end.

(** Where the parameters [a] and [b] of a call made in the store [st]
    live while the function runs. *)
Definition loc_a (st : store) : loc := length st.
Definition loc_b (st : store) : loc := S (length st).

(** What returning the parameter at [l], which holds [v], amounts to under
    the return type [R]. *)
Definition operand_result (R : rtype) (l : loc) (v : value) : option result :=
  match R with
  | Rref _ => Some (RRef l)
  | Rval T => RVal <$> convert T v
  end.

(** The expression [x < y] on two values, typed by their own types. *)
Definition lt_op (x y : value) : option bool :=
  C ← rel_type (type_of x) (type_of y); less C x y.

(** A value that its own type admits. *)
Definition wf_value (v : value) : bool := has_type v (type_of v).

(** The three ways a call [max(a, b)] can end. *)
Inductive outcome : Set :=
  | Rejected                              (* ill-formed: no program *)
  | Undefined                             (* undefined behaviour at run time *)
  | Returned (r : result) (st : store).

(** [max(a, b)] with the template arguments deduced from the arguments. *)
Definition max_call (a b : value) (st : store) : outcome :=
  match instantiate (type_of a) (type_of b) with
  | None => Rejected
  | Some inst =>
      match max inst a b st with
      | None => Undefined
      | Some (r, st') => Returned r st'
      end
  end.

(** [x = max(a, b)]-style use: the value the caller obtains from the call
    expression, if the call returns and reading its result is defined. *)
Definition max_value_of (a b : value) (st : store) : option value :=
  match max_call a b st with
  | Returned r st' => fst <$> use r st'
  | _ => None
  end.

(** The same call with the arguments named by the caller: [max(x, y)] for
    the caller's objects [x] at [lx] and [y] at [ly]. *)
Definition max_of_objects (inst : max_inst) (lx ly : loc) : M result :=
  let* a := load lx in
  let* b := load ly in
  max inst a b.

End MaxDecltype.
Export MaxDecltype.

(** ** The same template on a class type

    The template puts no constraint on its type parameters.  For an
    argument type that is a class, [T1 a] and [T2 b] run the copy
    constructor of the class, [b < a] runs its [operator<], and the end of
    a parameter runs its destructor; each of them is code of the user,
    which may throw and may write to whatever state it can reach.  This
    module is the instantiation [max<T, T>] for one such type [T]: the
    conditional is an lvalue of type [T] and the return type is [T&]. *)

Module ClassArg.

(** What the template uses of the class.  [G] is the state the operations
    of the class can reach outside the automatic objects of the call; an
    operation returns [None] when it throws.  [operator<] takes its
    operands by reference to [const]. *)
Record class_ops (obj G : Type) : Type := ClassOps {
  copy : obj -> G -> option obj * G;
  less_op : obj -> obj -> G -> option bool * G;
  destroy : obj -> G -> G
}.
Arguments ClassOps {obj G} _ _ _.
Arguments copy {obj G} _ _ _.
Arguments less_op {obj G} _ _ _ _.
Arguments destroy {obj G} _ _ _.

(** What the language leaves to the implementation: the order in which the
    two parameters are initialised, and whether the lifetime of a
    parameter ends when the function returns or at the end of the
    full-expression that contains the call. *)
Inductive lifetime : Set := UntilReturn | UntilFullExpression.

Record impl : Set := Impl {
  left_to_right : bool;
  param_lifetime : lifetime
}.

(** The automatic objects ever created, each still holding its value or
    destroyed ([None]), and the state outside them.  A location is the
    position of an object in the order of creation and is never used
    again. *)
Record state (obj G : Type) : Type := State {
  autos : list (option obj);
  glob : G
}.
Arguments State {obj G} _ _.
Arguments autos {obj G} _.
Arguments glob {obj G} _.

(** The function up to and including its [return] statement. *)
Inductive at_return (obj G : Type) : Type :=
  | Thrown (s : state obj G)
  | Stuck
  | Returning (l la lb : loc) (s : state obj G).
Arguments Thrown {obj G} _.
Arguments Stuck {obj G}.
Arguments Returning {obj G} _ _ _ _.

(** How a call ends: with an exception, with undefined behaviour, or with
    a reference to the object at [l]; [pending] lists the parameters that
    are still to be destroyed, in the order of their destruction. *)
Inductive outcome (obj G : Type) : Type :=
  | Threw (s : state obj G)
  | Undefined
  | Returned (l : loc) (pending : list loc) (s : state obj G).
Arguments Threw {obj G} _.
Arguments Undefined {obj G}.
Arguments Returned {obj G} _ _ _.

(** What may happen to the state after the call: objects are created,
    destroyed and assigned to, and the state outside them changes. *)
Inductive evolves {obj G : Type} (s : state obj G) : state obj G -> Prop :=
  | evolves_refl : evolves s s
  | evolves_create s' v g :
      evolves s s' -> evolves s (State (autos s' ++ [Some v]) g)
  | evolves_destroy s' (l : loc) g :
      evolves s s' -> evolves s (State (<[l := None]> (autos s')) g)
  | evolves_assign s' (l : loc) v w g :
      evolves s s' -> autos s' !! l = Some (Some w) ->
      evolves s (State (<[l := Some v]> (autos s')) g).

Section Call.

Context {obj G : Type} (ops : class_ops obj G) (im : impl).

(** Reading an object; undefined ([None]) outside its lifetime. *)
Definition read (l : loc) (s : state obj G) : option obj :=
  match autos s !! l with
  | Some (Some v) => Some v
  | _ => None
  end.

(** A by-value parameter, copy-constructed from the argument. *)
Definition new_param (x : obj) (s : state obj G) : option loc * state obj G :=
  match copy ops x (glob s) with
  | (Some v, g) => (Some (length (autos s)), State (autos s ++ [Some v]) g)
  | (None, g) => (None, State (autos s) g)
  end.

(** The end of a parameter: its destructor runs and the object is gone. *)
Definition end_param (s : state obj G) (l : loc) : state obj G :=
  match read l s with
  | Some v => State (<[l := None]> (autos s)) (destroy ops v (glob s))
  | None => s
  end.

Definition end_params (ls : list loc) (s : state obj G) : state obj G :=
  foldl end_param s ls.

(** Parameters are destroyed in the reverse order of their
    initialisation. *)
Definition destruction_order (la lb : loc) : list loc :=
  if left_to_right im then [lb; la] else [la; lb].

(** The two parameters, holding [va] and [vb], in the order of their
    initialisation. *)
Definition params_created (va vb : obj) : list (option obj) :=
  if left_to_right im then [Some va; Some vb] else [Some vb; Some va].

(** Initialising the parameters [T a] and [T b]; when the second copy
    throws, the parameter that exists already is destroyed. *)
Definition enter (a b : obj) (s : state obj G)
    : option (loc * loc) * state obj G :=
  if left_to_right im then
    match new_param a s with
    | (Some la, s1) =>
        match new_param b s1 with
        | (Some lb, s2) => (Some (la, lb), s2)
        | (None, s2) => (None, end_param s2 la)
        end
    | (None, s1) => (None, s1)
    end
  else
    match new_param b s with
    | (Some lb, s1) =>
        match new_param a s1 with
        | (Some la, s2) => (Some (la, lb), s2)
        | (None, s2) => (None, end_param s2 lb)
        end
    | (None, s1) => (None, s1)
    end.

(** [return b < a ? a : b;]: [operator<] runs once, on the parameters, and
    the result is bound to the selected parameter.  (The [b < a] of the
    trailing return type is an unevaluated operand.)  An exception from
    [operator<] unwinds the call, destroying the parameters. *)
Definition run_to_return (a b : obj) (s : state obj G) : at_return obj G :=
  match enter a b s with
  | (None, s1) => Thrown s1
  | (Some (la, lb), s1) =>
      match read lb s1, read la s1 with
      | Some vb, Some va =>
          match less_op ops vb va (glob s1) with
          | (Some c, g) =>
              Returning (if c then la else lb) la lb (State (autos s1) g)
          | (None, g) =>
              Thrown (end_params (destruction_order la lb) (State (autos s1) g))
          end
      | _, _ => Stuck
      end
  end.

(** The call [max(a, b)]. *)
Definition max (a b : obj) (s : state obj G) : outcome obj G :=
  match run_to_return a b s with
  | Thrown s1 => Threw s1
  | Stuck => Undefined
  | Returning l la lb s1 =>
      match param_lifetime im with
      | UntilReturn =>
          Returned l [] (end_params (destruction_order la lb) s1)
      | UntilFullExpression =>
          Returned l (destruction_order la lb) s1
      end
  end.

(** The end of the full-expression that contains the call. *)
Definition end_full_expression (pending : list loc) (s : state obj G)
    : state obj G :=
  end_params pending s.

(** The state once the full-expression that contains the call is over,
    however the call ended. *)
Definition after_call (a b : obj) (s : state obj G) : option (state obj G) :=
  match max a b s with
  | Threw s1 => Some s1
  | Undefined => None
  | Returned _ pending s1 => Some (end_full_expression pending s1)
  end.

End Call.

(** The built-in type [T] seen as a class: its operations have no effect
    and do not throw. *)
Definition builtin_ops (T : ctype) : class_ops value unit :=
  ClassOps (fun v g => (Some v, g))
           (fun x y g => (less T x y, g))
           (fun _ g => g).

(** A class wrapping an integer whose [operator<] refuses negative
    operands by throwing. *)
Definition checked_ops : class_ops Z unit :=
  ClassOps (fun v g => (Some v, g))
           (fun x y g => if (x <? 0) || (y <? 0) then (None, g)
                         else (Some (x <? y), g))
           (fun _ g => g).

(** A class wrapping an integer whose [operator<] counts its calls in a
    global counter. *)
Definition counting_ops : class_ops Z nat :=
  ClassOps (fun v g => (Some v, g))
           (fun x y g => (Some (x <? y), S g))
           (fun _ g => g).

(** A class wrapping an integer that keeps a global count of its live
    objects: the copy constructor and the destructor are not trivial. *)
Definition tracked_ops : class_ops Z Z :=
  ClassOps (fun v g => (Some v, g + 1))
           (fun x y g => (Some (x <? y), g))
           (fun _ g => g - 1).

End ClassArg.

(** * Properties *)

(** ** The frame of a call *)

Section Frame.

Context (st : store) (a b : value).

Lemma frame_lookup_a : ((st ++ [a]) ++ [b]) !! loc_a st = Some a.
Proof.
  unfold loc_a. rewrite <- app_assoc. now apply list_lookup_middle.
Qed.

Lemma frame_lookup_b : ((st ++ [a]) ++ [b]) !! loc_b st = Some b.
Proof.
  unfold loc_b. apply list_lookup_middle.
  rewrite length_app. simpl. lia.
Qed.

Lemma frame_pop : take (length st) ((st ++ [a]) ++ [b]) = st.
Proof. rewrite <- app_assoc. apply take_app_length. Qed.

Lemma loc_a_dead : st !! loc_a st = None.
Proof. apply lookup_ge_None. unfold loc_a. lia. Qed.

Lemma loc_b_dead : st !! loc_b st = None.
Proof. apply lookup_ge_None. unfold loc_b. lia. Qed.

End Frame.

(** ** Typing *)

Lemma instantiate_inv T1 T2 inst :
  instantiate T1 T2 = Some inst ->
  inst_T1 inst = T1 /\ inst_T2 inst = T2 /\
  rel_type T2 T1 = Some (inst_cmp inst) /\
  exists e, cond_type T1 T2 = Some e /\ inst_ret inst = decltype e.
Proof.
  unfold instantiate. intros H.
  destruct (rel_type T2 T1) as [C|]; [|discriminate].
  destruct (cond_type T1 T2) as [e|]; [|discriminate].
  simpl in H. injection H as <-. simpl.
  repeat split; try reflexivity. now exists e.
Qed.

Lemma has_type_type_of v T : has_type v T = true -> type_of v = T.
Proof.
  destruct v, T; simpl; try discriminate; try reflexivity;
    intros H; apply andb_prop in H as [H _];
    apply bool_decide_eq_true in H; now subst.
Qed.

Lemma has_type_wf v T : has_type v T = true -> wf_value v = true.
Proof.
  intros H. unfold wf_value. now rewrite (has_type_type_of _ _ H).
Qed.

Lemma rel_type_sym Tx Ty : rel_type Tx Ty = rel_type Ty Tx.
Proof.
  destruct Tx as [k1| |t1], Ty as [k2| |t2]; simpl; try reflexivity.
  - now destruct k1, k2.
  - destruct (decide (t1 = t2)) as [->|Hne].
    + now rewrite decide_True.
    + now rewrite decide_False by congruence.
Qed.

(** A well-formed comparison of two values of the operand types has a
    result. *)
Lemma less_defined Tx Ty C x y :
  rel_type Tx Ty = Some C ->
  has_type x Tx = true -> has_type y Ty = true ->
  is_Some (less C x y).
Proof.
  intros HC Hx Hy.
  destruct Tx as [k1| |t1], Ty as [k2| |t2]; simpl in HC; try discriminate;
    destruct x as [kx nx|fx|tx nx]; simpl in Hx; try discriminate;
    destruct y as [ky ny|fy|ty ny]; simpl in Hy; try discriminate;
    try (injection HC as <-; unfold less; simpl; eauto; fail).
  destruct (decide (t1 = t2)) as [->|]; [|discriminate].
  injection HC as <-.
  apply andb_prop in Hx as [Hx _]. apply bool_decide_eq_true in Hx as ->.
  apply andb_prop in Hy as [Hy _]. apply bool_decide_eq_true in Hy as ->.
  unfold less; simpl. rewrite !decide_True by reflexivity. simpl. eauto.
Qed.

(** An operand of either arithmetic type converts to the common type. *)
Lemma convert_common T1 T2 T v :
  arith_common T1 T2 = Some T ->
  has_type v T1 = true \/ has_type v T2 = true ->
  is_Some (convert T v).
Proof.
  intros HT Hv.
  destruct T1 as [k1| |t1], T2 as [k2| |t2]; simpl in HT; try discriminate;
    injection HT as <-;
    destruct v as [kv nv|fv|tv nv]; simpl in Hv;
    destruct Hv as [Hv|Hv]; try discriminate; simpl; eauto.
Qed.

(** ** Running the function *)

(** The body reads the store and leaves it as it is. *)
Lemma max_body_store inst la lb s r s' :
  max_body inst la lb s = Some (r, s') -> s' = s.
Proof.
  unfold max_body, return_selected, bind, load, lift, ret.
  intros H. repeat case_match; simplify_eq; reflexivity.
Qed.

(** A call returns to the store it was made in. *)
Lemma max_store inst a b st r st' :
  max inst a b st = Some (r, st') -> st' = st.
Proof.
  unfold max, scoped, bind, param, alloc, lift. intros H.
  destruct (has_type a (inst_T1 inst)); [|discriminate].
  destruct (has_type b (inst_T2 inst)); [|discriminate].
  destruct (max_body _ _ _ _) as [[r0 s0]|] eqn:Hbody; [|discriminate].
  apply max_body_store in Hbody. subst s0.
  injection H as _ <-. apply frame_pop.
Qed.

(** The body inside the frame of a call: the outcome [c] of [b < a]
    selects the parameter that is returned. *)
Lemma max_body_eval inst a b st c :
  less (inst_cmp inst) b a = Some c ->
  max_body inst (loc_a st) (loc_b st) ((st ++ [a]) ++ [b]) =
    (r ← operand_result (inst_ret inst)
           (if c then loc_a st else loc_b st) (if c then a else b);
     Some (r, (st ++ [a]) ++ [b])).
Proof.
  intros Hc. unfold max_body, bind, load, lift.
  rewrite frame_lookup_b, frame_lookup_a, Hc.
  unfold return_selected, operand_result, bind, load, lift, ret.
  destruct (inst_ret inst) as [T|T]; [|reflexivity].
  destruct c; [rewrite frame_lookup_a | rewrite frame_lookup_b];
    now destruct (convert T _).
Qed.

(** While the parameters are alive the selected one holds the selected
    argument: reading the result of the body there is defined. *)
Lemma selected_param_alive (st : store) (a b : value) (c : bool) :
  ((st ++ [a]) ++ [b]) !! (if c then loc_a st else loc_b st)
  = Some (if c then a else b).
Proof. destruct c; [apply frame_lookup_a | apply frame_lookup_b]. Qed.

(** The result of a call on well-typed arguments, from the outcome [c] of
    the comparison [b < a]. *)
Lemma max_eval inst a b st c :
  has_type a (inst_T1 inst) = true ->
  has_type b (inst_T2 inst) = true ->
  less (inst_cmp inst) b a = Some c ->
  max inst a b st =
    (r ← operand_result (inst_ret inst)
           (if c then loc_a st else loc_b st) (if c then a else b);
     Some (r, st)).
Proof.
  intros Ha Hb Hc.
  unfold max, scoped, bind, param. rewrite Ha, Hb. unfold alloc.
  replace (length (st ++ [a])) with (loc_b st)
    by (unfold loc_b; rewrite length_app; simpl; lia).
  change (max_body inst (length st)) with (max_body inst (loc_a st)).
  rewrite (max_body_eval inst a b st c Hc).
  destruct (operand_result _ _ _); simpl; [now rewrite frame_pop | reflexivity].
Qed.

(** Every instantiation runs to completion on arguments of its parameter
    types: the comparison has an outcome [c], the selected parameter can be
    returned under the deduced return type, and the call ends with that
    result in the store it started from. *)
Lemma max_returns T1 T2 inst a b st :
  instantiate T1 T2 = Some inst ->
  has_type a T1 = true -> has_type b T2 = true ->
  exists c r,
    less (inst_cmp inst) b a = Some c /\
    operand_result (inst_ret inst)
      (if c then loc_a st else loc_b st) (if c then a else b) = Some r /\
    max inst a b st = Some (r, st).
Proof.
  intros Hinst Ha Hb.
  destruct (instantiate_inv _ _ _ Hinst) as (E1 & E2 & Hrel & e & Hcond & Hret).
  destruct (less_defined _ _ _ _ _ Hrel Hb Ha) as [c Hc].
  assert (Hop : is_Some (operand_result (inst_ret inst)
            (if c then loc_a st else loc_b st) (if c then a else b))).
  { rewrite Hret. unfold cond_type in Hcond.
    destruct (decide (T1 = T2)) as [_|_].
    - injection Hcond as <-. simpl. eauto.
    - destruct (arith_common T1 T2) as [T|] eqn:HT; [|discriminate].
      injection Hcond as <-. simpl.
      destruct (convert_common T1 T2 T (if c then a else b) HT) as [w Hw].
      + destruct c; auto.
      + rewrite Hw. simpl. eauto. }
  destruct Hop as [r Hr]. exists c, r. repeat split; try assumption.
  rewrite (max_eval inst a b st c); [now rewrite Hr | congruence ..].
Qed.

(** With two different parameter types the conditional is a prvalue of the
    common type, the return type is that object type, and the call returns
    the selected argument converted to it. *)
Lemma max_distinct_types T1 T2 inst a b st :
  T1 <> T2 ->
  instantiate T1 T2 = Some inst ->
  has_type a T1 = true -> has_type b T2 = true ->
  exists T c w,
    arith_common T1 T2 = Some T /\ inst_ret inst = Rval T /\
    less (inst_cmp inst) b a = Some c /\
    convert T (if c then a else b) = Some w /\
    max inst a b st = Some (RVal w, st).
Proof.
  intros Hne Hinst Ha Hb.
  destruct (max_returns _ _ _ _ _ st Hinst Ha Hb) as (c & r & Hc & Hr & Hmax).
  destruct (instantiate_inv _ _ _ Hinst) as (_ & _ & _ & e & Hcond & Hret).
  unfold cond_type in Hcond. rewrite decide_False in Hcond by assumption.
  destruct (arith_common T1 T2) as [T|]; [|discriminate].
  injection Hcond as <-. simpl in Hret. rewrite Hret in Hr. simpl in Hr.
  destruct (convert T (if c then a else b)) as [w|] eqn:Hw; [|discriminate].
  injection Hr as <-. exists T, c, w. auto.
Qed.

(** With one type for both parameters the conditional is an lvalue, the
    return type is a reference, and the call hands back the location of the
    selected parameter, in a store where that parameter is gone. *)
Lemma max_same_type T inst a b st :
  instantiate T T = Some inst ->
  has_type a T = true -> has_type b T = true ->
  exists c,
    inst_ret inst = Rref T /\
    less (inst_cmp inst) b a = Some c /\
    max inst a b st = Some (RRef (if c then loc_a st else loc_b st), st).
Proof.
  intros Hinst Ha Hb.
  destruct (max_returns _ _ _ _ _ st Hinst Ha Hb) as (c & r & Hc & Hr & Hmax).
  destruct (instantiate_inv _ _ _ Hinst) as (_ & _ & _ & e & Hcond & Hret).
  unfold cond_type in Hcond. rewrite decide_True in Hcond by reflexivity.
  injection Hcond as <-. simpl in Hret. rewrite Hret in Hr. simpl in Hr.
  injection Hr as <-. exists c. auto.
Qed.

(** Two values of one type always instantiate the template. *)
Lemma instantiate_same T :
  exists C, instantiate T T = Some (MaxInst T T C (Rref T)).
Proof.
  unfold instantiate, cond_type. rewrite decide_True by reflexivity.
  destruct T as [k| |t]; simpl.
  - eauto.
  - eauto.
  - rewrite decide_True by reflexivity. simpl. eauto.
Qed.

(** The comparisons [b < a] and [a < b] of an instantiated call are made
    in the type the instantiation recorded. *)
Lemma lt_op_inst a b inst :
  instantiate (type_of a) (type_of b) = Some inst ->
  lt_op b a = less (inst_cmp inst) b a /\
  lt_op a b = less (inst_cmp inst) a b.
Proof.
  intros Hinst.
  destruct (instantiate_inv _ _ _ Hinst) as (_ & _ & Hrel & _).
  unfold lt_op. rewrite (rel_type_sym (type_of a)), Hrel. auto.
Qed.

(** Reading through a reference to either parameter after the call. *)
Lemma use_dead_param st (c : bool) :
  use (RRef (if c then loc_a st else loc_b st)) st = None.
Proof.
  unfold use, load, lift.
  destruct c; [rewrite loc_a_dead | rewrite loc_b_dead]; reflexivity.
Qed.

(** A call on two well-formed values of one type, as the caller sees it. *)
Lemma max_call_same_type a b st :
  wf_value a = true -> wf_value b = true -> type_of a = type_of b ->
  exists c,
    lt_op b a = Some c /\
    max_call a b st = Returned (RRef (if c then loc_a st else loc_b st)) st /\
    max_value_of a b st = None.
Proof.
  unfold wf_value. intros Ha Hb E.
  destruct (instantiate_same (type_of a)) as [C Hinst].
  assert (Hinst' : instantiate (type_of a) (type_of b) =
                   Some (MaxInst (type_of a) (type_of a) C (Rref (type_of a))))
    by now rewrite <- E.
  rewrite <- E in Hb.
  destruct (max_same_type _ _ a b st Hinst Ha Hb) as (c & _ & Hc & Hmax).
  exists c. destruct (lt_op_inst _ _ _ Hinst') as [-> _].
  assert (Hcall : max_call a b st =
                  Returned (RRef (if c then loc_a st else loc_b st)) st)
    by (unfold max_call; now rewrite Hinst', Hmax).
  repeat split; try assumption.
  unfold max_value_of. rewrite Hcall, use_dead_param. reflexivity.
Qed.

(** ** Instantiations and calls at a glance *)

Example instantiate_int_int :
  instantiate Tint Tint = Some (MaxInst Tint Tint Tint (Rref Tint)).
Proof. reflexivity. Qed.

Example instantiate_int_double :
  instantiate Tint Tdouble = Some (MaxInst Tint Tdouble Tdouble (Rval Tdouble)).
Proof. reflexivity. Qed.

Example instantiate_long_uint :
  instantiate Tlong Tuint = Some (MaxInst Tlong Tuint Tlong (Rval Tlong)).
Proof. reflexivity. Qed.

(** A scoped enumeration is not comparable with an [int]: the call is
    rejected at compile time. *)
Example instantiate_enum_int : instantiate (Tenum 0) Tint = None.
Proof. reflexivity. Qed.

Example max_call_enum_int :
  max_call (Venum 0 1) (Vinteger IInt 3) [] = Rejected.
Proof. reflexivity. Qed.

(** [max(-1, 1u)]: both operands are compared and returned as
    [unsigned int]. *)
Example max_call_int_uint :
  max_call (Vinteger IInt (-1)) (Vinteger IUInt 1) []
    = Returned (RVal (Vinteger IUInt 4294967295)) [].
Proof. reflexivity. Qed.

(** [max(0, -0.0)]: neither operand is less than the other, and the
    result is the second operand, negative zero, not the first operand
    converted to [double], which is positive zero. *)
Example max_call_int_0_double_neg_0 :
  max_call (Vinteger IInt 0) (Vdouble (-0)) [] = Returned (RVal (Vdouble (-0))) [] /\
  convert Tdouble (Vinteger IInt 0) = Some (Vdouble 0) /\
  Vdouble (-0) <> Vdouble 0.
Proof.
  split; [reflexivity|]. split; [reflexivity|]. discriminate.
Qed.

(** ** The claims *)

(** Settles a call on two concrete values of one type in any store. *)
Ltac same_type_call a b st :=
  let c := fresh "c" in
  let Hc := fresh "Hc" in
  let Hcall := fresh "Hcall" in
  let Hval := fresh "Hval" in
  destruct (max_call_same_type a b st) as (c & Hc & Hcall & Hval);
  [reflexivity .. |];
  vm_compute in Hc; injection Hc as <-;
  repeat split; solve [reflexivity | exact Hcall | exact Hval].

(** Settles a call on two concrete values of different types, from the
    instantiation [inst] and the outcome [c] of the comparison. *)
Ltac mixed_type_call inst c :=
  unfold max_value_of, max_call;
  change (instantiate _ _) with (Some inst); cbv beta iota;
  rewrite (max_eval inst _ _ _ c) by reflexivity;
  reflexivity.

(** C1, at the failing input [max(9, 2)] with both arguments [int]: the
    comparison [2 < 9] holds, and the call does not return a value equal to
    9; it returns a reference to the parameter [a], which no longer exists
    when the caller receives it, so that reading the result is undefined. *)
Theorem max_int_9_int_2_returns_dead_reference (st : store) :
  lt_op (Vinteger IInt 2) (Vinteger IInt 9) = Some true /\
  max_call (Vinteger IInt 9) (Vinteger IInt 2) st = Returned (RRef (loc_a st)) st /\
  max_value_of (Vinteger IInt 9) (Vinteger IInt 2) st = None.
Proof. same_type_call (Vinteger IInt 9) (Vinteger IInt 2) st. Qed.

(** What the call selects when neither [b < a] nor [a < b] holds: under an
    object return type the result is the value of [b] converted to that
    type, under a reference return type it is a reference to the parameter
    [b], in no case a reference to the parameter [a]. *)
Lemma max_tie_returns_second
    (a b : value) (inst : max_inst) (st : store) :
  instantiate (type_of a) (type_of b) = Some inst ->
  wf_value a = true -> wf_value b = true ->
  lt_op b a = Some false -> lt_op a b = Some false ->
  exists r,
    max_call a b st = Returned r st /\
    operand_result (inst_ret inst) (loc_b st) b = Some r /\
    r <> RRef (loc_a st).
Proof.
  unfold wf_value. intros Hinst Ha Hb Hba _.
  destruct (lt_op_inst _ _ _ Hinst) as [Eba _]. rewrite Eba in Hba.
  destruct (instantiate_inv _ _ _ Hinst) as (E1 & E2 & _).
  pose proof (max_eval inst a b st false) as Hmax.
  rewrite E1, E2 in Hmax. specialize (Hmax Ha Hb Hba).
  destruct (max_returns _ _ _ _ _ st Hinst Ha Hb) as (c & r & Hc & Hr & _).
  assert (c = false) as -> by congruence.
  exists r. unfold max_call. rewrite Hinst, Hmax, Hr. simpl.
  repeat split.
  destruct (inst_ret inst); simpl in Hr.
  - destruct (convert T b); simpl in Hr; [|discriminate].
    injection Hr as <-. discriminate.
  - injection Hr as <-. unfold loc_a, loc_b. intros [=]. lia.
Qed.

Lemma max_tie_returns_second_witness :
  exists r,
    max_call (Vinteger IInt 0) (Vdouble (-0)) [] = Returned r [] /\
    operand_result (Rval Tdouble) (loc_b []) (Vdouble (-0)) = Some r /\
    r <> RRef (loc_a []).
Proof.
  apply (max_tie_returns_second (Vinteger IInt 0) (Vdouble (-0))
           (MaxInst Tint Tdouble Tdouble (Rval Tdouble)) []); reflexivity.
Defined.

(** C5, at the failing input [max(-5, -1)] with both arguments [int]: the
    comparison [-1 < -5] fails and the parameter [b] is selected, but the
    caller does not obtain -1; the call returns a reference to the
    destroyed parameter [b], and reading the result is undefined. *)
Theorem max_int_minus5_int_minus1_returns_dead_reference (st : store) :
  lt_op (Vinteger IInt (-1)) (Vinteger IInt (-5)) = Some false /\
  max_call (Vinteger IInt (-5)) (Vinteger IInt (-1)) st
    = Returned (RRef (loc_b st)) st /\
  max_value_of (Vinteger IInt (-5)) (Vinteger IInt (-1)) st = None.
Proof. same_type_call (Vinteger IInt (-5)) (Vinteger IInt (-1)) st. Qed.

(** C6, at the failing input [max(3, 3)] with both arguments [int]: the
    parameter [b] is selected, but the caller does not obtain 3; the call
    returns a reference to the destroyed parameter [b], and reading the
    result is undefined. *)
Theorem max_int_3_int_3_returns_dead_reference (st : store) :
  lt_op (Vinteger IInt 3) (Vinteger IInt 3) = Some false /\
  max_call (Vinteger IInt 3) (Vinteger IInt 3) st
    = Returned (RRef (loc_b st)) st /\
  max_value_of (Vinteger IInt 3) (Vinteger IInt 3) st = None.
Proof. same_type_call (Vinteger IInt 3) (Vinteger IInt 3) st. Qed.

(** C7: for [a = 4] of type [int] and [b = 7.2] of type [double] the
    return type is [double], the comparison [7.2 < 4] is false, and the
    call returns 7.2. *)
Theorem max_int_4_double_7_2 (st : store) :
  inst_ret <$> instantiate Tint Tdouble = Some (Rval Tdouble) /\
  lt_op (Vdouble 7.2) (Vinteger IInt 4) = Some false /\
  max_call (Vinteger IInt 4) (Vdouble 7.2) st
    = Returned (RVal (Vdouble 7.2)) st /\
  max_value_of (Vinteger IInt 4) (Vdouble 7.2) st = Some (Vdouble 7.2).
Proof.
  repeat split; try reflexivity;
    mixed_type_call (MaxInst Tint Tdouble Tdouble (Rval Tdouble)) false.
Qed.

(** C8: for [a = 9] of type [int] and [b = 2.5] of type [double] the
    return type is [double], the comparison [2.5 < 9] is true, and the
    call returns [a] converted to [double], 9.0. *)
Theorem max_int_9_double_2_5 (st : store) :
  inst_ret <$> instantiate Tint Tdouble = Some (Rval Tdouble) /\
  lt_op (Vdouble 2.5) (Vinteger IInt 9) = Some true /\
  convert Tdouble (Vinteger IInt 9) = Some (Vdouble 9) /\
  max_call (Vinteger IInt 9) (Vdouble 2.5) st
    = Returned (RVal (Vdouble 9)) st /\
  max_value_of (Vinteger IInt 9) (Vdouble 2.5) st = Some (Vdouble 9).
Proof.
  repeat split; try reflexivity;
    mixed_type_call (MaxInst Tint Tdouble Tdouble (Rval Tdouble)) true.
Qed.

(** Called on two objects of the caller that have the parameter types,
    the function returns, in the store it was called in. *)
Lemma max_of_objects_returns T1 T2 inst lx ly a b st :
  instantiate T1 T2 = Some inst ->
  st !! lx = Some a -> st !! ly = Some b ->
  has_type a T1 = true -> has_type b T2 = true ->
  exists r, max_of_objects inst lx ly st = Some (r, st).
Proof.
  intros Hinst Hx Hy Ha Hb.
  destruct (max_returns _ _ _ _ _ st Hinst Ha Hb) as (c & r & _ & _ & Hmax).
  exists r. unfold max_of_objects, bind, load, lift. now rewrite Hx, Hy.
Qed.

(** C10, at the failing input [max(2, 5)] with both arguments [int]: the
    caller obtains neither 2 nor 5, nor any value that could be compared
    with them; the call returns a reference to the destroyed parameter
    [b], and reading the result is undefined. *)
Theorem max_int_2_int_5_returns_dead_reference (st : store) :
  lt_op (Vinteger IInt 5) (Vinteger IInt 2) = Some false /\
  max_call (Vinteger IInt 2) (Vinteger IInt 5) st
    = Returned (RRef (loc_b st)) st /\
  max_value_of (Vinteger IInt 2) (Vinteger IInt 5) st = None.
Proof. same_type_call (Vinteger IInt 2) (Vinteger IInt 5) st. Qed.

(** * Further properties of the function *)

(** ** Arithmetic facts *)

Lemma common_ikind_sym k1 k2 : common_ikind k1 k2 = common_ikind k2 k1.
Proof. now destruct k1, k2. Qed.

Lemma arith_common_sym T1 T2 : arith_common T1 T2 = arith_common T2 T1.
Proof.
  destruct T1 as [k1| |t1], T2 as [k2| |t2]; simpl; try reflexivity.
  now rewrite common_ikind_sym.
Qed.

(** A converted integer is a value of the target type. *)
Lemma wrap_in_range k n : in_range k (wrap k n) = true.
Proof.
  unfold in_range, min_value, max_value, wrap.
  apply andb_true_intro.
  destruct k; cbn [is_signed bits].
  - change (2 ^ (32 - 1)) with 2147483648. change (2 ^ 32) with 4294967296.
    pose proof (Z.mod_pos_bound (n + 2147483648) 4294967296 eq_refl).
    split; apply Z.leb_le; lia.
  - change (2 ^ 32) with 4294967296.
    pose proof (Z.mod_pos_bound n 4294967296 eq_refl).
    split; apply Z.leb_le; lia.
  - change (2 ^ (64 - 1)) with 9223372036854775808.
    change (2 ^ 64) with 18446744073709551616.
    pose proof (Z.mod_pos_bound (n + 9223372036854775808)
                  18446744073709551616 eq_refl).
    split; apply Z.leb_le; lia.
  - change (2 ^ 64) with 18446744073709551616.
    pose proof (Z.mod_pos_bound n 18446744073709551616 eq_refl).
    split; apply Z.leb_le; lia.
Qed.

(** Converting a value that the target type can represent keeps it. *)
Lemma wrap_id k n : in_range k n = true -> wrap k n = n.
Proof.
  unfold in_range, min_value, max_value, wrap. intros H.
  apply andb_prop in H as [Hlo Hhi].
  apply Z.leb_le in Hlo. apply Z.leb_le in Hhi.
  destruct k; cbn [is_signed bits] in *.
  - change (2 ^ (32 - 1)) with 2147483648 in *.
    change (2 ^ 32) with 4294967296.
    rewrite Z.mod_small; lia.
  - change (2 ^ 32) with 4294967296 in *. rewrite Z.mod_small; lia.
  - change (2 ^ (64 - 1)) with 9223372036854775808 in *.
    change (2 ^ 64) with 18446744073709551616.
    rewrite Z.mod_small; lia.
  - change (2 ^ 64) with 18446744073709551616 in *. rewrite Z.mod_small; lia.
Qed.

(** A value converted to a common arithmetic type is a value of that
    type. *)
Lemma convert_has_type T1 T2 T v w :
  arith_common T1 T2 = Some T -> convert T v = Some w -> has_type w T = true.
Proof.
  intros HT.
  assert (HT' : (exists k, T = Tinteger k) \/ T = Tdouble).
  { destruct T1 as [k1| |t1], T2 as [k2| |t2]; simpl in HT;
      try discriminate; injection HT as <-; eauto. }
  destruct HT' as [[k ->] | ->]; destruct v as [kv n|f|tv n]; simpl;
    try discriminate; intros [= <-]; simpl; try reflexivity.
  rewrite bool_decide_eq_true_2 by reflexivity. apply wrap_in_range.
Qed.

(** A NaN compares less than nothing, and nothing compares less than it. *)
Lemma SFeqb_self_false s : SFeqb s s = false -> s = S754_nan.
Proof.
  unfold SFeqb. destruct s as [sg|sg| |sg m e]; simpl; try discriminate;
    try reflexivity.
  - now destruct sg.
  - rewrite Z.compare_refl, Pos.compare_cont_refl. now destruct sg.
Qed.

Lemma is_nan_Prim2SF f : is_nan f = true -> Prim2SF f = S754_nan.
Proof.
  unfold is_nan. rewrite FloatAxioms.eqb_spec. intros H.
  apply SFeqb_self_false. now destruct (SFeqb _ _).
Qed.

Lemma ltb_nan_l f g : is_nan f = true -> PrimFloat.ltb f g = false.
Proof.
  intros H. rewrite FloatAxioms.ltb_spec, (is_nan_Prim2SF f H). reflexivity.
Qed.

Lemma ltb_nan_r f g : is_nan g = true -> PrimFloat.ltb f g = false.
Proof.
  intros H. rewrite FloatAxioms.ltb_spec, (is_nan_Prim2SF g H).
  unfold SFltb. now destruct (Prim2SF f).
Qed.

(** ** Which calls are accepted, and with which return type *)

(** The call is rejected at compile time exactly when the two argument
    types differ and one of them is a scoped enumeration; every other pair
    of types instantiates the template. *)
Theorem max_rejected_iff (T1 T2 : ctype) :
  instantiate T1 T2 = None <->
  T1 <> T2 /\ ((exists t, T1 = Tenum t) \/ (exists t, T2 = Tenum t)).
Proof.
  unfold instantiate, cond_type.
  destruct T1 as [k1| |t1], T2 as [k2| |t2]; simpl;
    repeat case_decide; simpl; split;
    try discriminate; try congruence;
    try (intros _; split; [congruence | eauto]);
    intros [Hne [[t E]|[t E]]]; congruence.
Qed.

(** Swapping the two arguments changes neither whether the call is
    accepted, nor the type in which the arguments are compared, nor the
    return type, unless the types are equal, where each order returns a
    reference to that type. *)
Theorem max_return_type_swap (T1 T2 : ctype) :
  inst_ret <$> instantiate T1 T2 = inst_ret <$> instantiate T2 T1 /\
  inst_cmp <$> instantiate T1 T2 = inst_cmp <$> instantiate T2 T1.
Proof.
  unfold instantiate, cond_type.
  rewrite (rel_type_sym T2 T1), (arith_common_sym T2 T1).
  destruct (decide (T1 = T2)) as [->|Hne].
  - rewrite decide_True by reflexivity. auto.
  - rewrite decide_False by congruence.
    destruct (rel_type T1 T2), (arith_common T1 T2); simpl; auto.
Qed.

(** ** Arguments of different types *)

(** A call on two well-formed values of different types that is accepted:
    the return type is the common arithmetic type, and the caller obtains
    the argument selected by [b < a] converted to that type. *)
Lemma max_call_distinct_types a b inst st :
  wf_value a = true -> wf_value b = true ->
  type_of a <> type_of b ->
  instantiate (type_of a) (type_of b) = Some inst ->
  exists T c w,
    inst_ret inst = Rval T /\
    arith_common (type_of a) (type_of b) = Some T /\
    lt_op b a = Some c /\
    convert T (if c then a else b) = Some w /\
    max_call a b st = Returned (RVal w) st /\
    max_value_of a b st = Some w.
Proof.
  unfold wf_value. intros Ha Hb Hne Hinst.
  destruct (max_distinct_types _ _ _ a b st Hne Hinst Ha Hb)
    as (T & c & w & HT & Hret & Hc & Hw & Hmax).
  exists T, c, w.
  destruct (lt_op_inst _ _ _ Hinst) as [-> _].
  assert (Hcall : max_call a b st = Returned (RVal w) st)
    by (unfold max_call; now rewrite Hinst, Hmax).
  repeat split; try assumption.
  unfold max_value_of. now rewrite Hcall.
Qed.

(** An ill-typed argument makes no call. *)
Lemma max_ill_typed inst a b st :
  has_type a (inst_T1 inst) = false \/ has_type b (inst_T2 inst) = false ->
  max inst a b st = None.
Proof.
  unfold max, scoped, bind, param, alloc, lift.
  intros [H|H].
  - now rewrite H.
  - rewrite H. now destruct (has_type a (inst_T1 inst)).
Qed.

(** For two well-formed arguments of different types whose call is
    accepted, the call returns by value: the return type is the common
    arithmetic type [T], the caller obtains the argument selected by
    [b < a] converted to [T], and what it obtains is a value of [T]. *)
Theorem max_distinct_types_returns_converted
    (a b : value) (inst : max_inst) (st : store) :
  wf_value a = true -> wf_value b = true ->
  type_of a <> type_of b ->
  instantiate (type_of a) (type_of b) = Some inst ->
  exists T c w,
    inst_ret inst = Rval T /\
    lt_op b a = Some c /\
    convert T (if c then a else b) = Some w /\
    max_call a b st = Returned (RVal w) st /\
    max_value_of a b st = Some w /\
    has_type w T = true.
Proof.
  intros Ha Hb Hne Hinst.
  destruct (max_call_distinct_types a b inst st Ha Hb Hne Hinst)
    as (T & c & w & Hret & HT & Hc & Hw & Hcall & Hval).
  exists T, c, w. repeat split; try assumption.
  exact (convert_has_type _ _ _ _ _ HT Hw).
Qed.

Lemma max_distinct_types_returns_converted_witness :
  exists T c w,
    Rval Tlong = Rval T /\
    lt_op (Vinteger IUInt 7) (Vinteger ILong (-3)) = Some c /\
    convert T (if c then Vinteger ILong (-3) else Vinteger IUInt 7) = Some w /\
    max_call (Vinteger ILong (-3)) (Vinteger IUInt 7) [] = Returned (RVal w) [] /\
    max_value_of (Vinteger ILong (-3)) (Vinteger IUInt 7) [] = Some w /\
    has_type w T = true.
Proof.
  apply (max_distinct_types_returns_converted
           (Vinteger ILong (-3)) (Vinteger IUInt 7)
           (MaxInst Tlong Tuint Tlong (Rval Tlong)) []);
    [reflexivity | reflexivity | discriminate | reflexivity].
Defined.

(** The caller of an accepted call on well-formed arguments obtains a
    value exactly when the two argument types differ: with equal types the
    result is a reference to a destroyed parameter and reading it is
    undefined, with different types it is an object. *)
Theorem max_value_obtained_iff_distinct_types (a b : value) (st : store) :
  wf_value a = true -> wf_value b = true ->
  is_Some (instantiate (type_of a) (type_of b)) ->
  (is_Some (max_value_of a b st) <-> type_of a <> type_of b).
Proof.
  intros Ha Hb [inst Hinst]. split.
  - intros [w Hw] E.
    destruct (max_call_same_type a b st Ha Hb E) as (_ & _ & _ & Hnone).
    congruence.
  - intros Hne.
    destruct (max_call_distinct_types a b inst st Ha Hb Hne Hinst)
      as (_ & _ & w & _ & _ & _ & _ & _ & Hval).
    now exists w.
Qed.

Lemma max_value_obtained_iff_distinct_types_witness :
  is_Some (max_value_of (Vinteger IInt 4) (Vdouble 7.2) []) <->
  Tint <> Tdouble.
Proof.
  apply (max_value_obtained_iff_distinct_types
           (Vinteger IInt 4) (Vdouble 7.2) []);
    [reflexivity | reflexivity | eexists; reflexivity].
Defined.

(** ** Integer arguments of different types *)

(** The call on two integers of different types, computed. *)
Lemma max_call_integers k1 k2 m n st :
  k1 <> k2 ->
  in_range k1 m = true -> in_range k2 n = true ->
  let K := common_ikind k1 k2 in
  max_call (Vinteger k1 m) (Vinteger k2 n) st
  = Returned (RVal (Vinteger K (Z.max (wrap K m) (wrap K n)))) st.
Proof.
  intros Hne Hm Hn K.
  assert (Hinst : instantiate (Tinteger k1) (Tinteger k2)
                  = Some (MaxInst (Tinteger k1) (Tinteger k2)
                            (Tinteger K) (Rval (Tinteger K)))).
  { unfold instantiate, cond_type. simpl.
    rewrite decide_False by congruence. simpl.
    now rewrite (common_ikind_sym k2 k1). }
  unfold max_call. simpl type_of. rewrite Hinst.
  rewrite (max_eval _ _ _ st (wrap K n <? wrap K m)); simpl.
  - destruct (wrap K n <? wrap K m) eqn:Hlt; simpl; do 3 f_equal.
    + apply Z.ltb_lt in Hlt. lia.
    + apply Z.ltb_ge in Hlt. lia.
  - now rewrite bool_decide_eq_true_2.
  - now rewrite bool_decide_eq_true_2.
  - reflexivity.
Qed.

(** Two integers of different types are compared, and the larger one
    returned, after both have been converted to the common type: the
    result is the larger of the two converted values, which for a negative
    signed argument converted to an unsigned common type is not the larger
    of the two arguments. *)
Theorem max_integers_compared_after_conversion
    (k1 k2 : ikind) (m n : Z) (st : store) :
  k1 <> k2 ->
  in_range k1 m = true -> in_range k2 n = true ->
  max_value_of (Vinteger k1 m) (Vinteger k2 n) st
  = Some (Vinteger (common_ikind k1 k2)
            (Z.max (wrap (common_ikind k1 k2) m) (wrap (common_ikind k1 k2) n))).
Proof.
  intros Hne Hm Hn. unfold max_value_of.
  now rewrite (max_call_integers k1 k2 m n st Hne Hm Hn).
Qed.

Lemma max_integers_compared_after_conversion_witness :
  max_value_of (Vinteger IInt (-1)) (Vinteger IUInt 1) []
  = Some (Vinteger IUInt (Z.max (wrap IUInt (-1)) (wrap IUInt 1))) /\
  Z.max (wrap IUInt (-1)) (wrap IUInt 1) = 4294967295.
Proof.
  split; [|reflexivity].
  apply (max_integers_compared_after_conversion IInt IUInt (-1) 1 []);
    [discriminate | reflexivity | reflexivity].
Defined.

(** When the common type can represent both integer arguments, the call
    returns their mathematical maximum. *)
Theorem max_integers_representable
    (k1 k2 : ikind) (m n : Z) (st : store) :
  k1 <> k2 ->
  in_range k1 m = true -> in_range k2 n = true ->
  in_range (common_ikind k1 k2) m = true ->
  in_range (common_ikind k1 k2) n = true ->
  max_value_of (Vinteger k1 m) (Vinteger k2 n) st
  = Some (Vinteger (common_ikind k1 k2) (Z.max m n)).
Proof.
  intros Hne Hm Hn HKm HKn. unfold max_value_of.
  rewrite (max_call_integers k1 k2 m n st Hne Hm Hn). simpl.
  now rewrite (wrap_id _ _ HKm), (wrap_id _ _ HKn).
Qed.

Lemma max_integers_representable_witness :
  max_value_of (Vinteger ILong (-3)) (Vinteger IUInt 7) []
  = Some (Vinteger ILong (Z.max (-3) 7)).
Proof.
  apply (max_integers_representable ILong IUInt (-3) 7 []);
    [discriminate | reflexivity ..].
Defined.

(** On two integers of different types the order of the arguments does
    not matter to the value the caller obtains. *)
Theorem max_integers_commute (k1 k2 : ikind) (m n : Z) (st : store) :
  k1 <> k2 ->
  in_range k1 m = true -> in_range k2 n = true ->
  max_value_of (Vinteger k1 m) (Vinteger k2 n) st
  = max_value_of (Vinteger k2 n) (Vinteger k1 m) st.
Proof.
  intros Hne Hm Hn. unfold max_value_of.
  rewrite (max_call_integers k1 k2 m n st Hne Hm Hn).
  rewrite (max_call_integers k2 k1 n m st (not_eq_sym Hne) Hn Hm).
  simpl. now rewrite (common_ikind_sym k2 k1), Z.max_comm.
Qed.

Lemma max_integers_commute_witness :
  max_value_of (Vinteger IInt (-1)) (Vinteger IULong 1) []
  = max_value_of (Vinteger IULong 1) (Vinteger IInt (-1)) [].
Proof.
  apply (max_integers_commute IInt IULong (-1) 1 []);
    [discriminate | reflexivity | reflexivity].
Defined.

(** ** An integer and a [double] *)

Lemma SFltb_irrefl s : SFltb s s = false.
Proof.
  unfold SFltb. destruct s as [sg|sg| |sg m e]; simpl; try reflexivity.
  - now destruct sg.
  - rewrite Z.compare_refl, Pos.compare_cont_refl. now destruct sg.
Qed.

Lemma SFltb_asym s1 s2 : SFltb s1 s2 = true -> SFltb s2 s1 = false.
Proof.
  unfold SFltb.
  destruct s1 as [g1|g1| |g1 m1 e1], s2 as [g2|g2| |g2 m2 e2]; simpl;
    try discriminate; try reflexivity;
    try (destruct g1; discriminate || reflexivity);
    try (destruct g2; discriminate || reflexivity);
    try (destruct g1, g2; discriminate || reflexivity).
  rewrite (Z.compare_antisym e1 e2).
  assert (Hm : Pos.compare_cont Eq m2 m1 = CompOpp (Pos.compare_cont Eq m1 m2))
    by (now rewrite Pos.compare_cont_antisym).
  rewrite Hm.
  destruct g1, g2; try discriminate; try reflexivity;
    destruct (e1 ?= e2); simpl; try discriminate; try reflexivity;
    destruct (Pos.compare_cont Eq m1 m2); simpl;
    discriminate || reflexivity.
Qed.

Lemma ltb_irrefl f : PrimFloat.ltb f f = false.
Proof. rewrite FloatAxioms.ltb_spec. apply SFltb_irrefl. Qed.

Lemma ltb_asym f g : PrimFloat.ltb f g = true -> PrimFloat.ltb g f = false.
Proof. rewrite !FloatAxioms.ltb_spec. apply SFltb_asym. Qed.

(** The calls on an integer and a [double], in either order, computed. *)
Lemma max_call_integer_double k n f st :
  in_range k n = true ->
  max_call (Vinteger k n) (Vdouble f) st
  = Returned (RVal (Vdouble (if PrimFloat.ltb f (Z2double n)
                             then Z2double n else f))) st.
Proof.
  intros Hn. unfold max_call.
  change (instantiate _ _)
    with (Some (MaxInst (Tinteger k) Tdouble Tdouble (Rval Tdouble))).
  cbv beta iota.
  rewrite (max_eval _ _ _ st (PrimFloat.ltb f (Z2double n))); simpl.
  - now destruct (PrimFloat.ltb f (Z2double n)).
  - now rewrite bool_decide_eq_true_2.
  - reflexivity.
  - reflexivity.
Qed.

Lemma max_call_double_integer k n f st :
  in_range k n = true ->
  max_call (Vdouble f) (Vinteger k n) st
  = Returned (RVal (Vdouble (if PrimFloat.ltb (Z2double n) f
                             then f else Z2double n))) st.
Proof.
  intros Hn. unfold max_call.
  change (instantiate _ _)
    with (Some (MaxInst Tdouble (Tinteger k) Tdouble (Rval Tdouble))).
  cbv beta iota.
  rewrite (max_eval _ _ _ st (PrimFloat.ltb (Z2double n) f)); simpl.
  - now destruct (PrimFloat.ltb (Z2double n) f).
  - reflexivity.
  - now rewrite bool_decide_eq_true_2.
  - reflexivity.
Qed.

(** For an integer and a [double], in either order, the caller obtains a
    [double] that is the [double] argument or the integer converted to
    [double], and neither of these two compares greater than it. *)
Theorem max_integer_double_upper_bound
    (k : ikind) (n : Z) (f : float) (st : store) :
  in_range k n = true ->
  (exists w,
      max_value_of (Vinteger k n) (Vdouble f) st = Some (Vdouble w) /\
      (w = Z2double n \/ w = f) /\
      PrimFloat.ltb w (Z2double n) = false /\
      PrimFloat.ltb w f = false) /\
  (exists w,
      max_value_of (Vdouble f) (Vinteger k n) st = Some (Vdouble w) /\
      (w = Z2double n \/ w = f) /\
      PrimFloat.ltb w (Z2double n) = false /\
      PrimFloat.ltb w f = false).
Proof.
  intros Hn. unfold max_value_of. split.
  - rewrite (max_call_integer_double k n f st Hn). simpl.
    destruct (PrimFloat.ltb f (Z2double n)) eqn:Hlt; eexists;
      (split; [reflexivity|]).
    + split; [now left|]. split; [apply ltb_irrefl | now apply ltb_asym].
    + split; [now right|]. split; [assumption | apply ltb_irrefl].
  - rewrite (max_call_double_integer k n f st Hn). simpl.
    destruct (PrimFloat.ltb (Z2double n) f) eqn:Hlt; eexists;
      (split; [reflexivity|]).
    + split; [now right|]. split; [now apply ltb_asym | apply ltb_irrefl].
    + split; [now left|]. split; [apply ltb_irrefl | assumption].
Qed.

Lemma max_integer_double_upper_bound_witness :
  (exists w,
      max_value_of (Vinteger IInt 9) (Vdouble 2.5) [] = Some (Vdouble w) /\
      (w = Z2double 9 \/ w = 2.5%float) /\
      PrimFloat.ltb w (Z2double 9) = false /\
      PrimFloat.ltb w 2.5 = false) /\
  (exists w,
      max_value_of (Vdouble 2.5) (Vinteger IInt 9) [] = Some (Vdouble w) /\
      (w = Z2double 9 \/ w = 2.5%float) /\
      PrimFloat.ltb w (Z2double 9) = false /\
      PrimFloat.ltb w 2.5 = false).
Proof.
  apply (max_integer_double_upper_bound IInt 9 2.5 []). reflexivity.
Defined.

(** A NaN is never less and nothing is less than it, so with a NaN as one
    argument and an integer as the other the call returns its second
    argument: the NaN itself when it comes second, the integer converted
    to [double] when the NaN comes first. *)
Theorem max_nan_returns_second
    (k : ikind) (n : Z) (f : float) (st : store) :
  is_nan f = true -> in_range k n = true ->
  max_value_of (Vinteger k n) (Vdouble f) st = Some (Vdouble f) /\
  max_value_of (Vdouble f) (Vinteger k n) st = Some (Vdouble (Z2double n)).
Proof.
  intros Hf Hn. unfold max_value_of.
  rewrite (max_call_integer_double k n f st Hn).
  rewrite (max_call_double_integer k n f st Hn). simpl.
  now rewrite (ltb_nan_l f _ Hf), (ltb_nan_r _ f Hf).
Qed.

Lemma max_nan_returns_second_witness :
  max_value_of (Vinteger IInt 1) (Vdouble nan) [] = Some (Vdouble nan) /\
  max_value_of (Vdouble nan) (Vinteger IInt 1) [] = Some (Vdouble (Z2double 1)).
Proof.
  apply (max_nan_returns_second IInt 1 nan []); reflexivity.
Defined.

(** ** Arguments of one integer type *)

(** For two integers [m] and [n] of one type the reference that the call
    returns designates the parameter [a] when [n < m] and the parameter
    [b] otherwise, so the parameter [b] on a tie; while the function ran
    that parameter held the larger of the two values; when the caller
    receives the reference nothing lives there any more. *)
Theorem max_same_integer_type_designates_maximum
    (k : ikind) (m n : Z) (st : store) :
  in_range k m = true -> in_range k n = true ->
  let frame := (st ++ [Vinteger k m]) ++ [Vinteger k n] in
  let l := if n <? m then loc_a st else loc_b st in
  max_call (Vinteger k m) (Vinteger k n) st = Returned (RRef l) st /\
  frame !! loc_a st = Some (Vinteger k m) /\
  frame !! loc_b st = Some (Vinteger k n) /\
  frame !! l = Some (Vinteger k (Z.max m n)) /\
  st !! l = None.
Proof.
  intros Hm Hn frame l.
  destruct (max_call_same_type (Vinteger k m) (Vinteger k n) st)
    as (c & Hc & Hcall & _).
  { unfold wf_value. simpl. now rewrite bool_decide_eq_true_2. }
  { unfold wf_value. simpl. now rewrite bool_decide_eq_true_2. }
  { reflexivity. }
  unfold lt_op, less in Hc. simpl in Hc.
  unfold common_ikind in Hc. rewrite decide_True in Hc by reflexivity.
  simpl in Hc. rewrite (wrap_id _ _ Hm), (wrap_id _ _ Hn) in Hc.
  injection Hc as <-. fold l in Hcall.
  split; [exact Hcall|].
  split; [apply frame_lookup_a|]. split; [apply frame_lookup_b|]. split.
  - unfold frame, l. rewrite selected_param_alive.
    destruct (n <? m) eqn:Hlt; do 2 f_equal.
    + apply Z.ltb_lt in Hlt. lia.
    + apply Z.ltb_ge in Hlt. lia.
  - unfold l. destruct (n <? m); [apply loc_a_dead | apply loc_b_dead].
Qed.

Lemma max_same_integer_type_designates_maximum_witness :
  max_call (Vinteger IInt 3) (Vinteger IInt 3) [] = Returned (RRef (loc_b [])) [] /\
  (([] ++ [Vinteger IInt 3]) ++ [Vinteger IInt 3]) !! loc_a [] = Some (Vinteger IInt 3) /\
  (([] ++ [Vinteger IInt 3]) ++ [Vinteger IInt 3]) !! loc_b [] = Some (Vinteger IInt 3) /\
  (([] ++ [Vinteger IInt 3]) ++ [Vinteger IInt 3]) !! loc_b []
    = Some (Vinteger IInt (Z.max 3 3)) /\
  ([] : store) !! loc_b [] = None.
Proof.
  apply (max_same_integer_type_designates_maximum IInt 3 3 []); reflexivity.
Defined.

(** ** What the call reads *)

(** The value the caller obtains depends on the two arguments only, not on
    the store in which the call is made. *)
Theorem max_value_independent_of_store (a b : value) (st : store) :
  max_value_of a b st = max_value_of a b [].
Proof.
  destruct (instantiate (type_of a) (type_of b)) as [inst|] eqn:Hinst;
    [|unfold max_value_of, max_call; now rewrite Hinst].
  destruct (instantiate_inv _ _ _ Hinst) as (E1 & E2 & _).
  destruct (wf_value a) eqn:Ha; [destruct (wf_value b) eqn:Hb|].
  - destruct (decide (type_of a = type_of b)) as [E|Hne].
    + destruct (max_call_same_type a b st Ha Hb E) as (_ & _ & _ & ->).
      destruct (max_call_same_type a b [] Ha Hb E) as (_ & _ & _ & ->).
      reflexivity.
    + destruct (max_call_distinct_types a b inst st Ha Hb Hne Hinst)
        as (T & c & w & Hret & _ & Hc & Hw & _ & ->).
      destruct (max_call_distinct_types a b inst [] Ha Hb Hne Hinst)
        as (T' & c' & w' & Hret' & _ & Hc' & Hw' & _ & ->).
      rewrite Hret in Hret'. injection Hret' as <-.
      rewrite Hc in Hc'. injection Hc' as <-.
      now rewrite <- Hw, <- Hw'.
  - unfold max_value_of, max_call. rewrite Hinst.
    rewrite !max_ill_typed; [reflexivity | right | right];
      rewrite E2; exact Hb.
  - unfold max_value_of, max_call. rewrite Hinst.
    rewrite !max_ill_typed; [reflexivity | left | left];
      rewrite E1; exact Ha.
Qed.

(** * The template on a class type *)

(** ** Lists of two trailing objects *)

Section TwoLast.

Context {A : Type} (st : list A) (x y : A).

Lemma two_last_lookup_0 : (st ++ [x; y]) !! length st = Some x.
Proof. now apply list_lookup_middle. Qed.

Lemma two_last_lookup_1 : (st ++ [x; y]) !! S (length st) = Some y.
Proof.
  rewrite lookup_app_r by lia.
  now replace (S (length st) - length st)%nat with 1%nat by lia.
Qed.

Lemma two_last_insert_0 z : <[length st := z]> (st ++ [x; y]) = st ++ [z; y].
Proof.
  rewrite insert_app_r_alt by lia.
  now replace (length st - length st)%nat with 0%nat by lia.
Qed.

Lemma two_last_insert_1 z : <[S (length st) := z]> (st ++ [x; y]) = st ++ [x; z].
Proof.
  rewrite insert_app_r_alt by lia.
  now replace (S (length st) - length st)%nat with 1%nat by lia.
Qed.

Lemma one_last_lookup : (st ++ [x]) !! length st = Some x.
Proof. now apply list_lookup_middle. Qed.

Lemma one_last_insert z : <[length st := z]> (st ++ [x]) = st ++ [z].
Proof.
  rewrite insert_app_r_alt by lia.
  now replace (length st - length st)%nat with 0%nat by lia.
Qed.

Lemma two_last_assoc : (st ++ [x]) ++ [y] = st ++ [x; y].
Proof. now rewrite <- app_assoc. Qed.

Lemma one_last_length : length (st ++ [x]) = S (length st).
Proof. rewrite length_app. simpl. lia. Qed.

End TwoLast.

Section ClassCall.

Import ClassArg.

Context {obj G : Type} (ops : class_ops obj G) (im : impl).

Implicit Types (s : state obj G) (a b : obj) (l : loc).

(** What reaching the [return] statement means: both copies succeeded,
    the two parameters are the two newest objects, [operator<] ran on them
    in the state the copies left and gave [c], and the result is bound to
    the parameter that [c] selects. *)
Lemma run_to_return_inv a b s l la lb sr :
  run_to_return ops im a b s = Returning l la lb sr ->
  exists va vb c g1 g2 g3,
    let n := length (autos s) in
    (if left_to_right im
     then copy ops a (glob s) = (Some va, g1) /\ copy ops b g1 = (Some vb, g2)
     else copy ops b (glob s) = (Some vb, g1) /\ copy ops a g1 = (Some va, g2)) /\
    less_op ops vb va g2 = (Some c, g3) /\
    la = (if left_to_right im then n else S n) /\
    lb = (if left_to_right im then S n else n) /\
    l = (if c then la else lb) /\
    sr = State (autos s ++ params_created im va vb) g3.
Proof.
  unfold run_to_return, enter, new_param, params_created, read.
  destruct (left_to_right im).
  - destruct (copy ops a (glob s)) as [[va|] g1] eqn:Ha; [|discriminate].
    cbn [autos glob].
    destruct (copy ops b g1) as [[vb|] g2] eqn:Hb; [|discriminate].
    cbn [autos glob].
    rewrite one_last_length, two_last_assoc,
      two_last_lookup_0, two_last_lookup_1.
    destruct (less_op ops vb va g2) as [[c|] g3] eqn:Hlt; [|discriminate].
    intros [= <- <- <- <-]. exists va, vb, c, g1, g2, g3. cbn. auto 10.
  - destruct (copy ops b (glob s)) as [[vb|] g1] eqn:Hb; [|discriminate].
    cbn [autos glob].
    destruct (copy ops a g1) as [[va|] g2] eqn:Ha; [|discriminate].
    cbn [autos glob].
    rewrite one_last_length, two_last_assoc,
      two_last_lookup_0, two_last_lookup_1.
    destruct (less_op ops vb va g2) as [[c|] g3] eqn:Hlt; [|discriminate].
    intros [= <- <- <- <-]. exists va, vb, c, g1, g2, g3. cbn. auto 10.
Qed.


(** Destroying the two parameters, in the order of destruction, leaves two
    dead objects behind. *)
Lemma end_params_frame s va vb (g : G) la lb :
  la = (if left_to_right im then length (autos s) else S (length (autos s))) ->
  lb = (if left_to_right im then S (length (autos s)) else length (autos s)) ->
  exists g',
    end_params ops (destruction_order im la lb)
      (State (autos s ++ params_created im va vb) g)
    = State (autos s ++ [None; None]) g' /\
    forall P : G -> Prop,
      (forall x h, P h -> P (destroy ops x h)) -> P g -> P g'.
Proof.
  intros -> ->.
  unfold end_params, destruction_order, params_created, end_param, read.
  destruct (left_to_right im); cbn [foldl autos glob].
  - rewrite two_last_lookup_1, two_last_insert_1. cbn [autos glob].
    rewrite two_last_lookup_0, two_last_insert_0.
    eexists. split; [reflexivity|]. intros P HP Hg. now do 2 apply HP.
  - rewrite two_last_lookup_1, two_last_insert_1. cbn [autos glob].
    rewrite two_last_lookup_0, two_last_insert_0.
    eexists. split; [reflexivity|]. intros P HP Hg. now do 2 apply HP.
Qed.

(** A destroyed object stays destroyed, whatever happens later. *)
Lemma dead_stays_dead s s' l :
  evolves s s' ->
  (l < length (autos s))%nat -> read l s = None ->
  (l < length (autos s'))%nat /\ read l s' = None.
Proof.
  intros Hev Hl Hdead.
  induction Hev as [| s' v g _ [IHl IHd] | s' l' g _ [IHl IHd]
                   | s' l' v w g _ [IHl IHd] Hlive]; unfold read in *;
    cbn [autos] in *.
  - auto.
  - rewrite length_app. split; [lia|]. now rewrite lookup_app_l.
  - rewrite length_insert. split; [assumption|].
    destruct (decide (l' = l)) as [->|Hne].
    + now rewrite list_lookup_insert_eq.
    + now rewrite list_lookup_insert_ne.
  - rewrite length_insert. split; [assumption|].
    destruct (decide (l' = l)) as [E|Hne].
    + rewrite E in Hlive. rewrite Hlive in IHd. discriminate.
    + now rewrite list_lookup_insert_ne.
Qed.

(** However the call ends, once the full-expression is over the state is
    the one before the call with as many dead objects added as parameters
    were created, and the state outside the objects has gone through
    operations of the class only. *)
Lemma after_call_spec a b s :
  exists se k,
    after_call ops im a b s = Some se /\
    autos se = autos s ++ k /\
    Forall (fun o => o = None) k /\
    forall P : G -> Prop,
      (forall x h, P h -> P (copy ops x h).2) ->
      (forall x y h, P h -> P (less_op ops x y h).2) ->
      (forall x h, P h -> P (destroy ops x h)) ->
      P (glob s) -> P (glob se).
Proof.
  assert (Hbody : forall va vb g2,
    (forall P : G -> Prop,
        (forall x h, P h -> P (copy ops x h).2) -> P (glob s) -> P g2) ->
    let n := length (autos s) in
    let la := if left_to_right im then n else S n in
    let lb := if left_to_right im then S n else n in
    exists se k,
      match
        match
          match less_op ops vb va g2 with
          | (Some c, g) =>
              Returning (if c then la else lb) la lb
                (State (autos s ++ params_created im va vb) g)
          | (None, g) =>
              Thrown (end_params ops (destruction_order im la lb)
                        (State (autos s ++ params_created im va vb) g))
          end
        with
        | Thrown s1 => Threw s1
        | Stuck => Undefined
        | Returning l la lb s1 =>
            match param_lifetime im with
            | UntilReturn =>
                Returned l [] (end_params ops (destruction_order im la lb) s1)
            | UntilFullExpression =>
                Returned l (destruction_order im la lb) s1
            end
        end
      with
      | Threw s1 => Some s1
      | Undefined => None
      | Returned _ pending s1 => Some (end_full_expression ops pending s1)
      end = Some se /\
      autos se = autos s ++ k /\
      Forall (fun o => o = None) k /\
      forall P : G -> Prop,
        (forall x h, P h -> P (copy ops x h).2) ->
        (forall x y h, P h -> P (less_op ops x y h).2) ->
        (forall x h, P h -> P (destroy ops x h)) ->
        P (glob s) -> P (glob se)).
  { intros va vb g2 Hg2 n la lb.
    destruct (less_op ops vb va g2) as [[c|] g3] eqn:Hlt;
      destruct (end_params_frame s va vb g3 la lb eq_refl eq_refl)
        as (g' & Hend & HP).
    - exists (State (autos s ++ [None; None]) g'), [None; None].
      split.
      { destruct (param_lifetime im); unfold end_full_expression;
          [cbn [end_params foldl] | ]; now rewrite Hend. }
      split; [reflexivity|]. split; [repeat constructor|].
      intros P Hc Hl Hd H0. cbn [glob]. apply HP; [assumption|].
      specialize (Hl vb va g2 (Hg2 P Hc H0)). now rewrite Hlt in Hl.
    - exists (State (autos s ++ [None; None]) g'), [None; None].
      split; [now rewrite Hend|].
      split; [reflexivity|]. split; [repeat constructor|].
      intros P Hc Hl Hd H0. cbn [glob]. apply HP; [assumption|].
      specialize (Hl vb va g2 (Hg2 P Hc H0)). now rewrite Hlt in Hl. }
  unfold after_call, max, run_to_return, enter, new_param.
  destruct (left_to_right im) eqn:Hltr.
  - destruct (copy ops a (glob s)) as [[va|] g1] eqn:Ha; cbn [autos glob].
    + destruct (copy ops b g1) as [[vb|] g2] eqn:Hb; cbn [autos glob].
      * unfold read. cbn [autos glob].
        rewrite one_last_length, two_last_assoc,
          two_last_lookup_0, two_last_lookup_1.
        specialize (Hbody va vb g2). unfold params_created in Hbody.
        rewrite Hltr in Hbody. apply Hbody.
        intros P Hc H0.
        pose proof (Hc a _ H0) as H1. rewrite Ha in H1; simpl in H1.
        pose proof (Hc b _ H1) as H2. now rewrite Hb in H2.
      * unfold end_param, read. cbn [autos glob].
        rewrite one_last_lookup, one_last_insert.
        eexists _, [None]. split; [reflexivity|]. split; [reflexivity|].
        split; [repeat constructor|].
        intros P Hc Hl Hd H0. cbn [glob]. apply Hd.
        pose proof (Hc a _ H0) as H1. rewrite Ha in H1; simpl in H1.
        pose proof (Hc b _ H1) as H2. now rewrite Hb in H2.
    + exists (State (autos s) g1), []. split; [reflexivity|].
      split; [now rewrite app_nil_r|]. split; [constructor|].
      intros P Hc Hl Hd H0. cbn [glob].
      pose proof (Hc a _ H0) as H1. now rewrite Ha in H1; simpl in H1.
  - destruct (copy ops b (glob s)) as [[vb|] g1] eqn:Hb; cbn [autos glob].
    + destruct (copy ops a g1) as [[va|] g2] eqn:Ha; cbn [autos glob].
      * unfold read. cbn [autos glob].
        rewrite one_last_length, two_last_assoc,
          two_last_lookup_0, two_last_lookup_1.
        specialize (Hbody va vb g2). unfold params_created in Hbody.
        rewrite Hltr in Hbody. apply Hbody.
        intros P Hc H0.
        pose proof (Hc b _ H0) as H1. rewrite Hb in H1; simpl in H1.
        pose proof (Hc a _ H1) as H2. now rewrite Ha in H2.
      * unfold end_param, read. cbn [autos glob].
        rewrite one_last_lookup, one_last_insert.
        eexists _, [None]. split; [reflexivity|]. split; [reflexivity|].
        split; [repeat constructor|].
        intros P Hc Hl Hd H0. cbn [glob]. apply Hd.
        pose proof (Hc b _ H0) as H1. rewrite Hb in H1; simpl in H1.
        pose proof (Hc a _ H1) as H2. now rewrite Ha in H2.
    + exists (State (autos s) g1), []. split; [reflexivity|].
      split; [now rewrite app_nil_r|]. split; [constructor|].
      intros P Hc Hl Hd H0. cbn [glob].
      pose proof (Hc b _ H0) as H1. now rewrite Hb in H1; simpl in H1.
Qed.

(** A call returns or throws, and it throws only where an operation of
    the class throws. *)
Lemma max_cases a b s :
  (exists l pending s', max ops im a b s = Returned l pending s') \/
  (exists s', max ops im a b s = Threw s' /\
     ((exists x g, (copy ops x g).1 = None) \/
      (exists x y g, (less_op ops x y g).1 = None))).
Proof.
  unfold max, run_to_return, enter, new_param, read.
  destruct (left_to_right im).
  - destruct (copy ops a (glob s)) as [[va|] g1] eqn:Ha; cbn [autos glob].
    + destruct (copy ops b g1) as [[vb|] g2] eqn:Hb; cbn [autos glob].
      * rewrite one_last_length, two_last_assoc,
          two_last_lookup_0, two_last_lookup_1.
        destruct (less_op ops vb va g2) as [[c|] g3] eqn:Hlt.
        -- left. destruct (param_lifetime im); eauto.
        -- right. eexists. split; [reflexivity|]. right.
           exists vb, va, g2. now rewrite Hlt.
      * right. eexists. split; [reflexivity|]. left.
        exists b, g1. now rewrite Hb.
    + right. eexists. split; [reflexivity|]. left.
      exists a, (glob s). now rewrite Ha.
  - destruct (copy ops b (glob s)) as [[vb|] g1] eqn:Hb; cbn [autos glob].
    + destruct (copy ops a g1) as [[va|] g2] eqn:Ha; cbn [autos glob].
      * rewrite one_last_length, two_last_assoc,
          two_last_lookup_0, two_last_lookup_1.
        destruct (less_op ops vb va g2) as [[c|] g3] eqn:Hlt.
        -- left. destruct (param_lifetime im); eauto.
        -- right. eexists. split; [reflexivity|]. right.
           exists vb, va, g2. now rewrite Hlt.
      * right. eexists. split; [reflexivity|]. left.
        exists a, g1. now rewrite Ha.
    + right. eexists. split; [reflexivity|]. left.
      exists b, (glob s). now rewrite Hb.
Qed.

(** Reading the two parameters at the [return] statement. *)
Lemma read_params s va vb (g : G) la lb :
  la = (if left_to_right im then length (autos s) else S (length (autos s))) ->
  lb = (if left_to_right im then S (length (autos s)) else length (autos s)) ->
  read la (State (autos s ++ params_created im va vb) g) = Some va /\
  read lb (State (autos s ++ params_created im va vb) g) = Some vb.
Proof.
  intros -> ->. unfold read, params_created. cbn [autos].
  destruct (left_to_right im);
    now rewrite two_last_lookup_0, two_last_lookup_1.
Qed.

(** The places of the two parameters hold nothing before the call and
    dead objects once the parameters are destroyed. *)
Lemma params_fresh s l :
  (length (autos s) <= l)%nat -> read l s = None.
Proof.
  intros Hl. unfold read.
  destruct (autos s !! l) as [o|] eqn:E; [|reflexivity].
  apply lookup_lt_Some in E. lia.
Qed.

Lemma params_dead s (g : G) l :
  l = length (autos s) \/ l = S (length (autos s)) ->
  (l < length (autos s ++ [None; None]))%nat /\
  read l (State (autos s ++ [@None obj; None]) g) = None.
Proof.
  intros Hl. rewrite length_app. cbn [length]. split; [lia|].
  unfold read. cbn [autos].
  destruct Hl as [-> | ->];
    [now rewrite two_last_lookup_0 | now rewrite two_last_lookup_1].
Qed.

End ClassCall.

(** On two values of a built-in type the class model with the operations
    of that type makes the comparison that the model of the built-in types
    makes, and binds the result to the parameter it selects. *)
Lemma class_model_of_builtin T im a b c (s : ClassArg.state value unit) :
  less T b a = Some c ->
  let n := length (ClassArg.autos s) in
  let la := if ClassArg.left_to_right im then n else S n in
  let lb := if ClassArg.left_to_right im then S n else n in
  ClassArg.run_to_return (ClassArg.builtin_ops T) im a b s
  = ClassArg.Returning (if c then la else lb) la lb
      (ClassArg.State (ClassArg.autos s ++ ClassArg.params_created im a b) tt).
Proof.
  intros Hc.
  unfold ClassArg.run_to_return, ClassArg.enter, ClassArg.new_param,
    ClassArg.read, ClassArg.params_created, ClassArg.builtin_ops.
  cbn [ClassArg.copy ClassArg.less_op ClassArg.autos ClassArg.glob].
  destruct (ClassArg.left_to_right im);
    cbn [ClassArg.copy ClassArg.less_op ClassArg.autos ClassArg.glob];
    rewrite one_last_length, two_last_assoc,
      two_last_lookup_0, two_last_lookup_1, Hc;
    now destruct (ClassArg.glob s).
Qed.

(** ** The claims that reach beyond the built-in types *)







(** C4, at the failing input [max(0.0, -0.0)] with both arguments
    [double]: neither operand is less than the other, and the caller does
    not obtain the second operand, negative zero; the call returns a
    reference to the destroyed parameter [b], and reading the result is
    undefined. *)
Theorem max_double_0_double_neg_0_returns_dead_reference (st : store) :
  lt_op (Vdouble (-0)) (Vdouble 0) = Some false /\
  lt_op (Vdouble 0) (Vdouble (-0)) = Some false /\
  max_call (Vdouble 0) (Vdouble (-0)) st = Returned (RRef (loc_b st)) st /\
  max_value_of (Vdouble 0) (Vdouble (-0)) st = None.
Proof. same_type_call (Vdouble 0) (Vdouble (-0)) st. Qed.



